(** * plorth/parser: the syntax tree of [include/plorth/parser/ast.hpp]

    The header declares an abstract base class [token] and six concrete
    classes ([array], [object], [quote], [string], [symbol], [word]).  Every
    data member is [const], every member function is [const], and copying
    and moving a token are deleted, so a token is built once by its
    constructor and then only read.  Tokens are handled through
    [std::shared_ptr]; a composite token stores handles to its children.

    The development has two layers.
    - The classes: one module per C++ class, holding the record of its data
      members, its constructor and its member functions.
    - The memory: tokens live in a heap and are named by handles, which is
      what gives meaning to "the identical instance" and to "for the whole
      lifetime of the node". *)

From Stdlib Require Import ZArith List Lia.
From stdpp Require Import base option list gmap.

(** ** Text *)

(** [char32_t]: one 32 bit code unit.  The header never computes on code
    units, it only stores and returns them. *)
Definition char32_t := Z.

(** [std::u32string]: a sequence of code units.  Two texts are the same
    when they are the same list. *)
Definition u32string := list char32_t.

(** ** Positions *)

(** Modelled from the spec: [struct position] of
    [plorth/parser/position.hpp], which the header includes and which is not
    among the sources.  The spec gives it a source name, a line and a
    column, and says it is a plain copyable and comparable value. *)
Record position := mk_position {
  filename : u32string;
  line : Z;
  column : Z
}.

#[global] Instance position_eq_dec : EqDecision position.
Proof. solve_decision. Defined.

(** ** Handles *)

(** Address of a token in the heap. *)
Definition addr := nat.

(** [std::shared_ptr<T>]: either null or the address of a token it shares
    ownership of.  Copying a handle copies the address, never the token;
    [operator==] on handles compares addresses. *)
Inductive shared_ptr :=
| nullptr
| ptr (a : addr).

#[global] Instance shared_ptr_eq_dec : EqDecision shared_ptr.
Proof. solve_decision. Defined.

(** ** The classes *)

Module token.

(** [enum class type], with the enumerators in declaration order. *)
Inductive type := array | object | quote | string | symbol | word.

(** The value each enumerator is given in the header: a character
    literal. *)
Definition code (t : type) : Z :=
  match t with
  | array => 91%Z    (* left square bracket *)
  | object => 123%Z  (* left curly bracket *)
  | quote => 40%Z    (* left parenthesis *)
  | string => 34%Z   (* double quotation mark *)
  | symbol => 115%Z  (* small letter s *)
  | word => 58%Z     (* colon *)
  end.

(** Data members of the base class. *)
Record t := mk { m_position : position }.

(** [explicit token(const struct position& position)
      : m_position(position) {}] *)
Definition token (position : position) : t := {| m_position := position |}.

(** [const struct position& position() const] *)
Definition position (self : t) := m_position self.

End token.

#[global] Instance token_type_eq_dec : EqDecision token.type.
Proof. solve_decision. Defined.

Module array.

(** [std::vector<std::shared_ptr<token>>] *)
Definition container_type := list shared_ptr.

Record t := mk { base : token.t; m_elements : container_type }.

(** [explicit array(const struct position& position,
                    const container_type& elements)
      : token(position), m_elements(elements) {}] *)
Definition array (position : position) (elements : container_type) : t :=
  {| base := token.token position; m_elements := elements |}.

Definition type (self : t) : token.type := token.array.

Definition elements (self : t) : container_type := m_elements self.

End array.

Module object.

Definition key_type := u32string.
Definition mapped_type := shared_ptr.
(** [std::pair<key_type, mapped_type>] *)
Definition value_type := (key_type * mapped_type)%type.
(** [std::vector<value_type>] *)
Definition container_type := list value_type.

Record t := mk { base : token.t; m_properties : container_type }.

(** [explicit object(const struct position& position,
                     const container_type& properties)
      : token(position), m_properties(properties) {}] *)
Definition object (position : position) (properties : container_type) : t :=
  {| base := token.token position; m_properties := properties |}.

Definition type (self : t) : token.type := token.object.

Definition properties (self : t) : container_type := m_properties self.

End object.

Module quote.

Definition container_type := list shared_ptr.

Record t := mk { base : token.t; m_children : container_type }.

(** [explicit quote(const struct position& position,
                    const container_type& children)
      : token(position), m_children(children) {}] *)
Definition quote (position : position) (children : container_type) : t :=
  {| base := token.token position; m_children := children |}.

Definition type (self : t) : token.type := token.quote.

Definition children (self : t) : container_type := m_children self.

End quote.

Module string.

Definition value_type := u32string.

Record t := mk { base : token.t; m_value : value_type }.

(** [explicit string(const struct position& position,
                     const value_type& value)
      : token(position), m_value(value) {}] *)
Definition string (position : position) (value : value_type) : t :=
  {| base := token.token position; m_value := value |}.

Definition type (self : t) : token.type := token.string.

Definition value (self : t) : value_type := m_value self.

End string.

Module symbol.

Definition id_type := u32string.

Record t := mk { base : token.t; m_id : id_type }.

(** [explicit symbol(const struct position& position, const id_type& id)
      : token(position), m_id(id) {}] *)
Definition symbol (position : position) (id : id_type) : t :=
  {| base := token.token position; m_id := id |}.

Definition type (self : t) : token.type := token.symbol.

Definition id (self : t) : id_type := m_id self.

End symbol.

Module word.

(** [std::shared_ptr<class symbol>]: a handle whose static type promises
    a symbol.  The promise is the C++ type checker's; the handle itself is
    an address or null like any other. *)
Definition symbol_type := shared_ptr.

Record t := mk { base : token.t; m_symbol : symbol_type }.

(** [explicit word(const struct position& position,
                   const symbol_type& symbol)
      : token(position), m_symbol(symbol) {}] *)
Definition word (position : position) (symbol : symbol_type) : t :=
  {| base := token.token position; m_symbol := symbol |}.

Definition type (self : t) : token.type := token.word.

Definition symbol (self : t) : symbol_type := m_symbol self.

End word.

(** ** The class hierarchy *)

(** [class X : public token]: a class derived from [token] has the base
    class sub-object and overrides the pure virtual [type()]. *)
Class Token (T : Type) := {
  as_token : T -> token.t;
  type : T -> token.type
}.

#[global] Instance array_token : Token array.t :=
  {| as_token := array.base; type := array.type |}.
#[global] Instance object_token : Token object.t :=
  {| as_token := object.base; type := object.type |}.
#[global] Instance quote_token : Token quote.t :=
  {| as_token := quote.base; type := quote.type |}.
#[global] Instance string_token : Token string.t :=
  {| as_token := string.base; type := string.type |}.
#[global] Instance symbol_token : Token symbol.t :=
  {| as_token := symbol.base; type := symbol.type |}.
#[global] Instance word_token : Token word.t :=
  {| as_token := word.base; type := word.type |}.

(** The inherited [position()], callable on every derived class. *)
Definition position_of {T} `{Token T} (x : T) : position :=
  token.position (as_token x).

(** A token as it exists at run time: an object of exactly one of the six
    concrete classes ([token] itself is abstract). *)
Inductive node :=
| Array (a : array.t)
| Object (o : object.t)
| Quote (q : quote.t)
| String (s : string.t)
| Symbol (s : symbol.t)
| Word (w : word.t).

(** Calls through a [token&]: [position()] reads the base sub-object,
    [type()] is dispatched to the override of the dynamic class. *)
#[global] Instance node_token : Token node := {|
  as_token n :=
    match n with
    | Array a => as_token a
    | Object o => as_token o
    | Quote q => as_token q
    | String s => as_token s
    | Symbol s => as_token s
    | Word w => as_token w
    end;
  type n :=
    match n with
    | Array a => type a
    | Object o => type o
    | Quote q => type q
    | String s => type s
    | Symbol s => type s
    | Word w => type w
    end
|}.

(** ** Memory *)

(** Name of an object the caller owns (a local variable, say) and passes
    to a constructor by [const] reference. *)
Definition ref := nat.

(** The objects a caller passes by reference: every constructor parameter
    of the header has one of these five types. *)
Inductive cell :=
| a_position (p : position)
| a_container (c : list shared_ptr)
| some_properties (c : object.container_type)
| a_text (s : u32string)
| a_handle (p : shared_ptr).

(** The heap holds the tokens, in allocation order: the address of a
    token is its index.  A token is never freed while a handle to it
    exists, and the heap keeps every token: what happens after the last
    handle is dropped cannot be observed through a handle.
    The locals are the caller's own objects, which the caller may
    overwrite or destroy at will. *)
Record memory := mk_memory {
  heap : list node;
  locals : gmap ref cell
}.

Definition empty_memory : memory := {| heap := []; locals := ∅ |}.

(** How a call ends.  The header has no [assert] and no [throw], so none
    of the operations below ends [Aborted]; the outcome is there to say
    so. *)
Inductive outcome (A : Type) :=
| Returned (a : A) (m : memory)  (* normal return, with the memory left *)
| Aborted                        (* stopped by a failed assertion *)
| Undefined.                     (* null or dangling handle or reference
                                    used: no defined behaviour *)
Arguments Returned {A} a m.
Arguments Aborted {A}.
Arguments Undefined {A}.

Definition M (A : Type) : Type := memory -> outcome A.

Definition ret {A} (a : A) : M A := fun m => Returned a m.

Definition bind {A B} (c : M A) (k : A -> M B) : M B :=
  fun m =>
    match c m with
    | Returned a m' => k a m'
    | Aborted => Aborted
    | Undefined => Undefined
    end.

Definition undefined {A} : M A := fun _ => Undefined.

Notation "x <- c ;; k" := (bind c (fun x => k))
  (at level 100, c at next level, right associativity).

(** [std::make_shared<T>(...)]: the constructed token gets a fresh
    address, and the handle to it is returned.  Running out of memory is
    not modelled. *)
Definition make_shared (n : node) : M shared_ptr :=
  fun m =>
    Returned (ptr (length (heap m)))
             {| heap := heap m ++ [n]; locals := locals m |}.

(** [*p], for a handle [p]. *)
Definition deref (p : shared_ptr) : M node :=
  fun m =>
    match p with
    | nullptr => Undefined
    | ptr a =>
        match heap m !! a with
        | Some n => Returned n m
        | None => Undefined
        end
    end.

(** Reading the caller's object behind a reference. *)
Definition load (r : ref) : M cell :=
  fun m =>
    match locals m !! r with
    | Some c => Returned c m
    | None => Undefined
    end.

(** ** Building tokens *)

(** [std::make_shared<array>(position, elements)] and its five siblings:
    the constructor runs, the token is placed in the heap. *)
Definition new_array (position : position) (elements : array.container_type)
  : M shared_ptr := make_shared (Array (array.array position elements)).

Definition new_object (position : position)
  (properties : object.container_type) : M shared_ptr :=
  make_shared (Object (object.object position properties)).

Definition new_quote (position : position) (children : quote.container_type)
  : M shared_ptr := make_shared (Quote (quote.quote position children)).

Definition new_string (position : position) (value : string.value_type)
  : M shared_ptr := make_shared (String (string.string position value)).

Definition new_symbol (position : position) (id : symbol.id_type)
  : M shared_ptr := make_shared (Symbol (symbol.symbol position id)).

Definition new_word (position : position) (symbol : word.symbol_type)
  : M shared_ptr := make_shared (Word (word.word position symbol)).

(** A constructor call: which class, and with which arguments. *)
Inductive construction :=
| an_array (position : position) (elements : array.container_type)
| an_object (position : position) (properties : object.container_type)
| a_quote (position : position) (children : quote.container_type)
| a_string (position : position) (value : string.value_type)
| a_symbol (position : position) (id : symbol.id_type)
| a_word (position : position) (symbol : word.symbol_type).

(** The class whose constructor is called, by its enumerator. *)
Definition variant (c : construction) : token.type :=
  match c with
  | an_array _ _ => token.array
  | an_object _ _ => token.object
  | a_quote _ _ => token.quote
  | a_string _ _ => token.string
  | a_symbol _ _ => token.symbol
  | a_word _ _ => token.word
  end.

(** The first argument of the call. *)
Definition position_given (c : construction) : position :=
  match c with
  | an_array pos _ | an_object pos _ | a_quote pos _
  | a_string pos _ | a_symbol pos _ | a_word pos _ => pos
  end.

(** The token the constructor leaves. *)
Definition constructed (c : construction) : node :=
  match c with
  | an_array pos l => Array (array.array pos l)
  | an_object pos l => Object (object.object pos l)
  | a_quote pos l => Quote (quote.quote pos l)
  | a_string pos s => String (string.string pos s)
  | a_symbol pos s => Symbol (symbol.symbol pos s)
  | a_word pos h => Word (word.word pos h)
  end.

Definition new (c : construction) : M shared_ptr :=
  match c with
  | an_array pos l => new_array pos l
  | an_object pos l => new_object pos l
  | a_quote pos l => new_quote pos l
  | a_string pos s => new_string pos s
  | a_symbol pos s => new_symbol pos s
  | a_word pos h => new_word pos h
  end.

(** The same with the arguments as the header takes them, by [const]
    reference: the constructor reads the caller's objects when it runs and
    initialises its own members from what it reads. *)
Definition load_position (r : ref) : M position :=
  c <- load r ;;
  match c with a_position p => ret p | _ => undefined end.

Definition construct (t : token.type) (position content : ref)
  : M shared_ptr :=
  pos <- load_position position ;;
  c <- load content ;;
  match t, c with
  | token.array, a_container l => new_array pos l
  | token.object, some_properties l => new_object pos l
  | token.quote, a_container l => new_quote pos l
  | token.string, a_text s => new_string pos s
  | token.symbol, a_text s => new_symbol pos s
  | token.word, a_handle h => new_word pos h
  | _, _ => undefined
  end.

(** ** Reading tokens through handles *)

(** [p->type()] and [p->position()], for a handle to any token. *)
Definition type_at (p : shared_ptr) : M token.type :=
  n <- deref p ;; ret (type n).

Definition position_at (p : shared_ptr) : M position :=
  n <- deref p ;; ret (position_of n).

(** The other member functions exist in one class each; the handle has to
    point to a token of that class. *)
Definition elements_at (p : shared_ptr) : M array.container_type :=
  n <- deref p ;;
  match n with Array a => ret (array.elements a) | _ => undefined end.

Definition properties_at (p : shared_ptr) : M object.container_type :=
  n <- deref p ;;
  match n with Object o => ret (object.properties o) | _ => undefined end.

Definition children_at (p : shared_ptr) : M quote.container_type :=
  n <- deref p ;;
  match n with Quote q => ret (quote.children q) | _ => undefined end.

Definition value_at (p : shared_ptr) : M string.value_type :=
  n <- deref p ;;
  match n with String s => ret (string.value s) | _ => undefined end.

Definition id_at (p : shared_ptr) : M symbol.id_type :=
  n <- deref p ;;
  match n with Symbol s => ret (symbol.id s) | _ => undefined end.

Definition symbol_at (p : shared_ptr) : M word.symbol_type :=
  n <- deref p ;;
  match n with Word w => ret (word.symbol w) | _ => undefined end.

(** ** Programs over the header *)

(** What code that uses the header can do to the memory: build a token
    (arguments given as values or as references), call a member function
    through a handle, and, with its own objects, create or overwrite one or
    destroy one. *)
Inductive operation :=
| op_new (c : construction)
| op_construct (t : token.type) (position content : ref)
| op_type (p : shared_ptr)
| op_position (p : shared_ptr)
| op_elements (p : shared_ptr)
| op_properties (p : shared_ptr)
| op_children (p : shared_ptr)
| op_value (p : shared_ptr)
| op_id (p : shared_ptr)
| op_symbol (p : shared_ptr)
| op_assign (r : ref) (c : cell)
| op_destroy (r : ref).

Definition assign (r : ref) (c : cell) : M unit :=
  fun m => Returned tt {| heap := heap m; locals := <[r := c]> (locals m) |}.

Definition destroy (r : ref) : M unit :=
  fun m => Returned tt {| heap := heap m; locals := delete r (locals m) |}.

(** Running an operation, its result dropped. *)
Definition discard {A} (c : M A) : M unit := _ <- c ;; ret tt.

Definition perform (o : operation) : M unit :=
  match o with
  | op_new c => discard (new c)
  | op_construct t rp rc => discard (construct t rp rc)
  | op_type p => discard (type_at p)
  | op_position p => discard (position_at p)
  | op_elements p => discard (elements_at p)
  | op_properties p => discard (properties_at p)
  | op_children p => discard (children_at p)
  | op_value p => discard (value_at p)
  | op_id p => discard (id_at p)
  | op_symbol p => discard (symbol_at p)
  | op_assign r c => assign r c
  | op_destroy r => destroy r
  end.

Fixpoint run (os : list operation) : M unit :=
  match os with
  | [] => ret tt
  | o :: os' => _ <- perform o ;; run os'
  end.

(** ** Outcomes and samples *)

(** Whether a call was stopped by a failed assertion. *)
Definition fails_fast {A} (o : outcome A) : bool :=
  match o with
  | Aborted => true
  | Returned _ _ | Undefined => false
  end.

(** Positions and texts used in the examples: the source name [test],
    the texts [a], [b], [dup] and [Dup] as code units. *)
Definition test_3_5 : position := mk_position [116; 101; 115; 116]%Z 3 5.
Definition at_1_1 : position := mk_position [] 1 1.
Definition at_2_1 : position := mk_position [] 2 1.
Definition text_a : u32string := [97]%Z.
Definition text_b : u32string := [98]%Z.
Definition text_dup : u32string := [100; 117; 112]%Z.
Definition text_Dup : u32string := [68; 117; 112]%Z.

(** A caller that keeps a position in its object 0, a sequence of handles
    in 1, a sequence of properties in 2 and a text in 3. *)
Definition caller_memory : memory :=
  {| heap := [String (string.string at_1_1 text_a)];
     locals :=
       <[0 := a_position test_3_5]>
       (<[1 := a_container [ptr 0; nullptr; ptr 0]]>
       (<[2 := some_properties [(text_a, ptr 0); (text_a, nullptr)]]>
       (<[3 := a_text text_dup]> ∅))) |}.

(** The caller then empties its sequences, rewrites its text and lets all
    of them go. *)
Definition caller_meddles : list operation :=
  [op_assign 1 (a_container []); op_assign 2 (some_properties []);
   op_assign 3 (a_text text_Dup);
   op_destroy 0; op_destroy 1; op_destroy 2; op_destroy 3].

(** A symbol: built, then asked for its type, its id and its position. *)
Definition scenario_symbol : M (token.type * u32string * position) :=
  s <- new_symbol test_3_5 text_dup ;;
  t <- type_at s ;;
  i <- id_at s ;;
  pos <- position_at s ;;
  ret (t, i, pos).

(** An array over a string and a symbol: built bottom up, then walked
    through the handles [elements()] returns. *)
Definition scenario_array
  : M (token.type * nat * (token.type * u32string)
       * (token.type * u32string)) :=
  a <- new_string at_1_1 text_a ;;
  b <- new_symbol at_1_1 text_b ;;
  arr <- new_array at_1_1 [a; b] ;;
  t <- type_at arr ;;
  es <- elements_at arr ;;
  t0 <- type_at (nth 0 es nullptr) ;;
  v0 <- value_at (nth 0 es nullptr) ;;
  t1 <- type_at (nth 1 es nullptr) ;;
  i1 <- id_at (nth 1 es nullptr) ;;
  ret (t, length es, (t0, v0), (t1, i1)).

(** A quote with no children, and a quote with one. *)
Definition scenario_quote
  : M (token.type * quote.container_type * quote.container_type) :=
  c <- new_string at_1_1 text_a ;;
  q0 <- new_quote at_2_1 [] ;;
  q1 <- new_quote at_2_1 [c] ;;
  t <- type_at q0 ;;
  c0 <- children_at q0 ;;
  c1 <- children_at q1 ;;
  ret (t, c0, c1).

(** One child under two arrays, twice under the first. *)
Definition scenario_shared
  : M (shared_ptr * array.container_type * array.container_type) :=
  c <- new_string at_1_1 text_a ;;
  p1 <- new_array at_1_1 [c; c] ;;
  p2 <- new_array at_2_1 [c] ;;
  e1 <- elements_at p1 ;;
  e2 <- elements_at p2 ;;
  ret (c, e1, e2).

(** ** The shape of the heap *)

(** The handles a token holds in its data members: the elements of an
    array, the mapped values of an object's properties, the children of a
    quote, the symbol of a word; a string and a symbol hold none. *)
Definition handles (n : node) : list shared_ptr :=
  match n with
  | Array a => array.elements a
  | Object o => map snd (object.properties o)
  | Quote q => quote.children q
  | String _ | Symbol _ => []
  | Word w => [word.symbol w]
  end.

(** The handles in an object of the caller. *)
Definition handles_of_cell (c : cell) : list shared_ptr :=
  match c with
  | a_container l => l
  | some_properties l => map snd l
  | a_handle h => [h]
  | a_position _ | a_text _ => []
  end.

(** [child m a b]: the token at address [a] holds a handle to the token
    at address [b]. *)
Definition child (m : memory) (a b : addr) : Prop :=
  exists n, heap m !! a = Some n /\ In (ptr b) (handles n).

(** A handle a program can hold: null, or a handle to a token that
    exists.  (A non-null [std::shared_ptr] keeps its token alive, and the
    header offers no way to make a handle out of thin air.) *)
Definition live (m : memory) (p : shared_ptr) : bool :=
  match p with
  | nullptr => true
  | ptr b => bool_decide (b < length (heap m))
  end.

(** A handle of static type [std::shared_ptr<class symbol>]: null, or a
    handle to a symbol. *)
Definition points_to_symbol (m : memory) (p : shared_ptr) : bool :=
  match p with
  | nullptr => true
  | ptr b =>
      match heap m !! b with
      | Some (Symbol _) => true
      | _ => false
      end
  end.

(** The arguments of a constructor call are handles the program can hold,
    of the types the constructor declares. *)
Definition accepts (m : memory) (c : construction) : bool :=
  forallb (live m) (handles (constructed c))
  && match c with
     | a_word _ h => points_to_symbol m h
     | _ => true
     end.

(** The constructor call [construct] amounts to, given what the two
    references hold. *)
Definition reading (t : token.type) (pos : position) (c : cell)
  : option construction :=
  match t, c with
  | token.array, a_container l => Some (an_array pos l)
  | token.object, some_properties l => Some (an_object pos l)
  | token.quote, a_container l => Some (a_quote pos l)
  | token.string, a_text s => Some (a_string pos s)
  | token.symbol, a_text s => Some (a_symbol pos s)
  | token.word, a_handle h => Some (a_word pos h)
  | _, _ => None
  end.

(** An operation whose handle arguments, if it builds a token, are handles
    the program can hold. *)
Definition allowed (m : memory) (o : operation) : bool :=
  match o with
  | op_new c => accepts m c
  | op_construct t rp rc =>
      match locals m !! rp, locals m !! rc with
      | Some (a_position pos), Some c =>
          match reading t pos c with
          | Some cs => accepts m cs
          | None => true
          end
      | _, _ => true
      end
  | _ => true
  end.

(** A program all of whose operations are allowed when their turn comes. *)
Fixpoint admissible (os : list operation) (m : memory) : bool :=
  match os with
  | [] => true
  | o :: os' =>
      allowed m o
      && match perform o m with
         | Returned _ m1 => admissible os' m1
         | Aborted | Undefined => true
         end
  end.

(** The heap is well formed when every token holds handles to older
    tokens only, and every word a null handle or a handle to a symbol. *)
Definition well_formed (m : memory) : Prop :=
  forall a n,
    heap m !! a = Some n ->
    (forall b, In (ptr b) (handles n) -> b < a) /\
    (forall w, n = Word w -> points_to_symbol m (word.symbol w) = true).

(** Whether an operation builds a token. *)
Definition builds (o : operation) : bool :=
  match o with
  | op_new _ | op_construct _ _ _ => true
  | _ => false
  end.

(** Whether an operation is the caller writing to its own objects. *)
Definition writes_locals (o : operation) : bool :=
  match o with
  | op_assign _ _ | op_destroy _ => true
  | _ => false
  end.

(** A symbol and a string; a word and an array over them; then a quote
    over the array, built from the caller's objects. *)
Definition sample_program : list operation :=
  [op_new (a_symbol test_3_5 text_dup);
   op_new (a_string at_1_1 text_a);
   op_new (a_word at_2_1 (ptr 0));
   op_new (an_array at_1_1 [ptr 1; nullptr; ptr 2; ptr 1]);
   op_assign 0 (a_position at_2_1);
   op_assign 1 (a_container [ptr 3; ptr 3]);
   op_construct token.quote 0 1;
   op_elements (ptr 3);
   op_destroy 1].

Definition sample_memory : memory :=
  {| heap :=
       [Symbol (symbol.symbol test_3_5 text_dup);
        String (string.string at_1_1 text_a);
        Word (word.word at_2_1 (ptr 0));
        Array (array.array at_1_1 [ptr 1; nullptr; ptr 2; ptr 1]);
        Quote (quote.quote at_2_1 [ptr 3; ptr 3])];
     locals := <[0 := a_position at_2_1]> ∅ |}.

(** A caller that keeps a position in its object 0 and a handle to the
    one symbol of the heap in its object 4, and what it does to them once
    a word is built. *)
Definition word_caller_memory : memory :=
  {| heap := [Symbol (symbol.symbol at_1_1 text_dup)];
     locals := <[0 := a_position test_3_5]> (<[4 := a_handle (ptr 0)]> ∅) |}.

Definition word_caller_meddles : list operation :=
  [op_assign 0 (a_position at_2_1); op_assign 4 (a_handle nullptr);
   op_destroy 0; op_destroy 4].


(** ** Facts about the memory *)

Section Memory.

Implicit Types (m : memory) (n : node) (a : addr) (p : shared_ptr).

Lemma bind_returned {A B} (c : M A) (k : A -> M B) m b m2 :
  (x <- c ;; k x) m = Returned b m2 ->
  exists x m1, c m = Returned x m1 /\ k x m1 = Returned b m2.
Proof.
  unfold bind. destruct (c m) as [x m1| |]; [eauto | discriminate..].
Qed.

Lemma make_shared_spec n m :
  make_shared n m =
    Returned (ptr (length (heap m)))
             {| heap := heap m ++ [n]; locals := locals m |}.
Proof. reflexivity. Qed.

Lemma make_shared_fresh n m p m' :
  make_shared n m = Returned p m' ->
  p = ptr (length (heap m)) /\ heap m !! length (heap m) = None /\
  heap m' !! length (heap m) = Some n.
Proof.
  rewrite make_shared_spec. intros [= <- <-]. cbn. repeat split.
  - apply lookup_ge_None_2. lia.
  - rewrite lookup_app_r by lia. by rewrite Nat.sub_diag.
Qed.

Lemma new_spec c : new c = make_shared (constructed c).
Proof. by destruct c. Qed.

Lemma deref_Some a n m :
  heap m !! a = Some n -> deref (ptr a) m = Returned n m.
Proof. intros H. unfold deref. by rewrite H. Qed.

Lemma deref_returned p n m m' :
  deref p m = Returned n m' ->
  m' = m /\ exists a, p = ptr a /\ heap m !! a = Some n.
Proof.
  unfold deref. destruct p as [|a]; [discriminate|].
  destruct (heap m !! a) as [x|] eqn:E; [|discriminate].
  intros [= <- <-]. eauto.
Qed.

Lemma load_returned r c m m' :
  load r m = Returned c m' -> m' = m /\ locals m !! r = Some c.
Proof.
  unfold load. destruct (locals m !! r) as [x|]; [|discriminate].
  by intros [= <- <-].
Qed.

End Memory.

(** Taking apart a call that is known to have returned. *)
Ltac returned :=
  repeat match goal with
    | H : bind _ _ _ = Returned _ _ |- _ =>
        apply bind_returned in H; destruct H as (? & ? & H & ?)
    | H : deref _ _ = Returned _ _ |- _ =>
        apply deref_returned in H; destruct H as (-> & ? & -> & H)
    | H : load _ _ = Returned _ _ |- _ =>
        apply load_returned in H; destruct H as (-> & H)
    | H : ret _ _ = Returned _ _ |- _ => injection H as <- <-
    | H : undefined _ = Returned _ _ |- _ => discriminate H
    | H : match ?x with _ => _ end _ = Returned _ _ |- _ => destruct x
    end.

Section Stability.

Implicit Types (m : memory) (n : node) (a : addr) (p : shared_ptr).

(** A call through a handle returns the memory it was given. *)
Lemma type_at_pure p t m m' : type_at p m = Returned t m' -> m' = m.
Proof. unfold type_at. intros H. by returned. Qed.

Lemma position_at_pure p x m m' : position_at p m = Returned x m' -> m' = m.
Proof. unfold position_at. intros H. by returned. Qed.

Lemma elements_at_pure p x m m' : elements_at p m = Returned x m' -> m' = m.
Proof. unfold elements_at. intros H. by returned. Qed.

Lemma properties_at_pure p x m m' :
  properties_at p m = Returned x m' -> m' = m.
Proof. unfold properties_at. intros H. by returned. Qed.

Lemma children_at_pure p x m m' : children_at p m = Returned x m' -> m' = m.
Proof. unfold children_at. intros H. by returned. Qed.

Lemma value_at_pure p x m m' : value_at p m = Returned x m' -> m' = m.
Proof. unfold value_at. intros H. by returned. Qed.

Lemma id_at_pure p x m m' : id_at p m = Returned x m' -> m' = m.
Proof. unfold id_at. intros H. by returned. Qed.

Lemma symbol_at_pure p x m m' : symbol_at p m = Returned x m' -> m' = m.
Proof. unfold symbol_at. intros H. by returned. Qed.

(** A constructor called by reference is the constructor called on what the
    references hold. *)
Lemma construct_returned t rp rc p m m' :
  construct t rp rc m = Returned p m' ->
  exists n, make_shared n m = Returned p m'.
Proof.
  unfold construct, load_position. intros H. returned; eauto.
Qed.

(** No operation removes or replaces a token: the heap only grows at its
    end. *)
Lemma perform_extends o u m m' :
  perform o m = Returned u m' -> exists l, heap m' = heap m ++ l.
Proof.
  assert (same : forall m0, exists l, heap m0 = heap m0 ++ l)
    by (intros m0; exists []; symmetry; apply app_nil_r).
  assert (grown : forall n p m0 m1,
             make_shared n m0 = Returned p m1 ->
             exists l, heap m1 = heap m0 ++ l)
    by (intros n p m0 m1; rewrite make_shared_spec; intros [= <- <-];
        cbn; eauto).
  destruct o; cbn [perform]; unfold discard, assign, destroy; intros H;
    returned.
  - rewrite new_spec in H. eapply grown, H.
  - apply construct_returned in H as [n H]. eapply grown, H.
  - apply type_at_pure in H as ->. apply same.
  - apply position_at_pure in H as ->. apply same.
  - apply elements_at_pure in H as ->. apply same.
  - apply properties_at_pure in H as ->. apply same.
  - apply children_at_pure in H as ->. apply same.
  - apply value_at_pure in H as ->. apply same.
  - apply id_at_pure in H as ->. apply same.
  - apply symbol_at_pure in H as ->. apply same.
  - injection H as _ <-. cbn. exists []. symmetry. apply app_nil_r.
  - injection H as _ <-. cbn. exists []. symmetry. apply app_nil_r.
Qed.

Lemma run_extends os u m m' :
  run os m = Returned u m' -> exists l, heap m' = heap m ++ l.
Proof.
  revert m. induction os as [|o os IH]; intros m H; cbn [run] in H.
  - returned. exists []. symmetry. apply app_nil_r.
  - returned.
    match goal with
    | H1 : perform _ _ = Returned _ _, H2 : run _ _ = Returned _ _ |- _ =>
        apply perform_extends in H1 as [l1 E1]; apply IH in H2 as [l2 E2]
    end.
    exists (l1 ++ l2). by rewrite E2, E1, app_assoc.
Qed.

(** Hence a token, once in the heap, stays there as it is. *)
Lemma run_keeps os u m m' a n :
  run os m = Returned u m' -> heap m !! a = Some n -> heap m' !! a = Some n.
Proof.
  intros H Ha. apply run_extends in H as [l ->]. by apply lookup_app_l_Some.
Qed.

End Stability.

(** ** From construction to any later moment *)

Section Lifetime.

Implicit Types (m : memory) (n : node) (a : addr) (p : shared_ptr)
  (c : construction).

(** Construction always returns: a handle to a fresh address, which holds
    the token the constructor left; nothing else in the memory changes. *)
Lemma new_returns c m :
  new c m =
    Returned (ptr (length (heap m)))
             {| heap := heap m ++ [constructed c]; locals := locals m |}.
Proof. by rewrite new_spec. Qed.

Lemma new_lives c m p m1 os u m2 :
  new c m = Returned p m1 ->
  run os m1 = Returned u m2 ->
  p = ptr (length (heap m)) /\
  heap m2 !! length (heap m) = Some (constructed c).
Proof.
  rewrite new_spec. intros Hnew Hrun.
  apply make_shared_fresh in Hnew as (-> & _ & Hm1). split; [done|].
  eapply run_keeps; eauto.
Qed.

(** What the calls through a handle return when the handle points to a
    token. *)
Lemma type_at_Some a n m :
  heap m !! a = Some n -> type_at (ptr a) m = Returned (type n) m.
Proof. intros H. unfold type_at, bind. by rewrite (deref_Some _ _ _ H). Qed.

Lemma position_at_Some a n m :
  heap m !! a = Some n ->
  position_at (ptr a) m = Returned (position_of n) m.
Proof. intros H. unfold position_at, bind. by rewrite (deref_Some _ _ _ H). Qed.

Lemma elements_at_Some a x m :
  heap m !! a = Some (Array x) ->
  elements_at (ptr a) m = Returned (array.elements x) m.
Proof. intros H. unfold elements_at, bind. by rewrite (deref_Some _ _ _ H). Qed.

Lemma properties_at_Some a x m :
  heap m !! a = Some (Object x) ->
  properties_at (ptr a) m = Returned (object.properties x) m.
Proof.
  intros H. unfold properties_at, bind. by rewrite (deref_Some _ _ _ H).
Qed.

Lemma children_at_Some a x m :
  heap m !! a = Some (Quote x) ->
  children_at (ptr a) m = Returned (quote.children x) m.
Proof. intros H. unfold children_at, bind. by rewrite (deref_Some _ _ _ H). Qed.

Lemma value_at_Some a x m :
  heap m !! a = Some (String x) ->
  value_at (ptr a) m = Returned (string.value x) m.
Proof. intros H. unfold value_at, bind. by rewrite (deref_Some _ _ _ H). Qed.

Lemma id_at_Some a x m :
  heap m !! a = Some (Symbol x) ->
  id_at (ptr a) m = Returned (symbol.id x) m.
Proof. intros H. unfold id_at, bind. by rewrite (deref_Some _ _ _ H). Qed.

Lemma symbol_at_Some a x m :
  heap m !! a = Some (Word x) ->
  symbol_at (ptr a) m = Returned (word.symbol x) m.
Proof. intros H. unfold symbol_at, bind. by rewrite (deref_Some _ _ _ H). Qed.

Lemma id_at_returned p s m m' :
  id_at p m = Returned s m' ->
  m' = m /\
  exists a x, p = ptr a /\ heap m !! a = Some (Symbol x) /\ symbol.id x = s.
Proof.
  unfold id_at, bind. destruct (deref p m) as [n m0| |] eqn:E; try discriminate.
  apply deref_returned in E as (-> & a & -> & Ha).
  destruct n; try discriminate. intros [= <- <-]. eauto 6.
Qed.

(** The six overrides of [type()], one per class. *)
Lemma type_of_each_class pos l ps s h :
  type (array.array pos l) = token.array /\
  type (object.object pos ps) = token.object /\
  type (quote.quote pos l) = token.quote /\
  type (string.string pos s) = token.string /\
  type (symbol.symbol pos s) = token.symbol /\
  type (word.word pos h) = token.word.
Proof. by repeat split. Qed.

Lemma type_constructed c : type (constructed c) = variant c.
Proof. by destruct c. Qed.

(** The inherited [position()], on each class. *)
Lemma position_of_each_class pos l ps s h :
  position_of (array.array pos l) = pos /\
  position_of (object.object pos ps) = pos /\
  position_of (quote.quote pos l) = pos /\
  position_of (string.string pos s) = pos /\
  position_of (symbol.symbol pos s) = pos /\
  position_of (word.word pos h) = pos.
Proof. by repeat split. Qed.

Lemma position_constructed c : position_of (constructed c) = position_given c.
Proof. by destruct c. Qed.

End Lifetime.

(** ** The claims *)

(** C1.  A node built by the constructor of any of the six classes reports,
    through [type()], the enumerator of that class (six checks, one per
    class): on the node the constructor leaves, through the handle right
    after construction, and through the handle after any further operations
    on the memory, for as long as the program runs. *)
Theorem type_is_the_variant_constructed (c : construction) (m : memory) :
  (forall pos l ps s h,
     type (array.array pos l) = token.array /\
     type (object.object pos ps) = token.object /\
     type (quote.quote pos l) = token.quote /\
     type (string.string pos s) = token.string /\
     type (symbol.symbol pos s) = token.symbol /\
     type (word.word pos h) = token.word) /\
  type (constructed c) = variant c /\
  exists p m1,
    new c m = Returned p m1 /\
    type_at p m1 = Returned (variant c) m1 /\
    forall os u m2,
      run os m1 = Returned u m2 -> type_at p m2 = Returned (variant c) m2.
Proof.
  split; [apply type_of_each_class|].
  split; [apply type_constructed|].
  eexists _, _. split; [apply new_returns|].
  assert (later : forall os u m2,
    run os {| heap := heap m ++ [constructed c]; locals := locals m |}
      = Returned u m2 ->
    type_at (ptr (length (heap m))) m2 = Returned (variant c) m2).
  { intros os u m2 Hrun.
    destruct (new_lives c m _ _ os u m2 (new_returns c m) Hrun) as [_ Hn].
    rewrite (type_at_Some _ _ _ Hn). by rewrite type_constructed. }
  split; [|exact later].
  apply (later [] tt). reflexivity.
Qed.

(** C7.  For a node of any of the six classes, [position()] returns the
    position passed to the constructor; the call always returns when made
    through the handle construction gave, and it returns that same position
    after any further operations on the memory. *)
Theorem position_is_the_one_given (c : construction) (m : memory) :
  (forall pos l ps s h,
     position_of (array.array pos l) = pos /\
     position_of (object.object pos ps) = pos /\
     position_of (quote.quote pos l) = pos /\
     position_of (string.string pos s) = pos /\
     position_of (symbol.symbol pos s) = pos /\
     position_of (word.word pos h) = pos) /\
  position_of (constructed c) = position_given c /\
  exists p m1,
    new c m = Returned p m1 /\
    position_at p m1 = Returned (position_given c) m1 /\
    forall os u m2,
      run os m1 = Returned u m2 ->
      position_at p m2 = Returned (position_given c) m2.
Proof.
  split; [apply position_of_each_class|].
  split; [apply position_constructed|].
  eexists _, _. split; [apply new_returns|].
  assert (later : forall os u m2,
    run os {| heap := heap m ++ [constructed c]; locals := locals m |}
      = Returned u m2 ->
    position_at (ptr (length (heap m))) m2
      = Returned (position_given c) m2).
  { intros os u m2 Hrun.
    destruct (new_lives c m _ _ os u m2 (new_returns c m) Hrun) as [_ Hn].
    rewrite (position_at_Some _ _ _ Hn). by rewrite position_constructed. }
  split; [|exact later].
  apply (later [] tt). reflexivity.
Qed.

(** C2.  An array returns from [elements()], and a quote from
    [children()], the very sequence of handles its constructor was given,
    whatever the position and the sequence (empty, with repeats, with
    nulls): the same handles in the same order.  Building the parent adds
    one token to the heap, the parent, and leaves every other token where
    and as it was, so the children are shared, not copied; when a second
    parent is built over some of the same handles, each parent still
    returns its own sequence, and a handle that occurs in both is the same
    handle seen from both. *)
Theorem array_and_quote_return_their_children
  (pos : position) (l : list shared_ptr) (m : memory) :
  array.elements (array.array pos l) = l /\
  quote.children (quote.quote pos l) = l /\
  (exists p m1,
     new_array pos l m = Returned p m1 /\
     elements_at p m1 = Returned l m1 /\
     heap m1 = heap m ++ [Array (array.array pos l)]) /\
  (exists p m1,
     new_quote pos l m = Returned p m1 /\
     children_at p m1 = Returned l m1 /\
     heap m1 = heap m ++ [Quote (quote.quote pos l)]) /\
  (forall pos' l', exists p m1 p' m2,
     new_array pos l m = Returned p m1 /\
     new_array pos' l' m1 = Returned p' m2 /\
     p <> p' /\
     elements_at p m2 = Returned l m2 /\
     elements_at p' m2 = Returned l' m2).
Proof.
  split; [reflexivity|]. split; [reflexivity|].
  split; [|split].
  - eexists _, _. split; [apply (new_returns (an_array pos l))|].
    split; [|reflexivity].
    apply (elements_at_Some _ (array.array pos l)). cbn.
    rewrite lookup_app_r by lia. by rewrite Nat.sub_diag.
  - eexists _, _. split; [apply (new_returns (a_quote pos l))|].
    split; [|reflexivity].
    apply (children_at_Some _ (quote.quote pos l)). cbn.
    rewrite lookup_app_r by lia. by rewrite Nat.sub_diag.
  - intros pos' l'. eexists _, _, _, _.
    split; [apply (new_returns (an_array pos l))|].
    split; [apply (new_returns (an_array pos' l'))|].
    cbn. rewrite length_app. cbn. split; [intros [= E]; lia|]. split.
    + apply (elements_at_Some _ (array.array pos l)). cbn.
      apply lookup_app_l_Some.
      rewrite lookup_app_r by lia. by rewrite Nat.sub_diag.
    + apply (elements_at_Some _ (array.array pos' l')). cbn.
      rewrite lookup_app_r by (rewrite length_app; cbn; lia).
      rewrite length_app. cbn. by rewrite Nat.sub_diag.
Qed.

(** C6.  An object returns from [properties()] the very sequence of
    (key, handle) pairs its constructor was given, in the order given;
    nothing is merged, dropped or reordered when keys repeat.  With keys
    [a], [a] and values [X], [Y] the result is [(a, X)], [(a, Y)]. *)
Theorem object_returns_its_properties
  (pos : position) (l : object.container_type) (m : memory) :
  object.properties (object.object pos l) = l /\
  (exists p m1,
     new_object pos l m = Returned p m1 /\
     properties_at p m1 = Returned l m1 /\
     heap m1 = heap m ++ [Object (object.object pos l)]) /\
  (forall (a : object.key_type) (X Y : shared_ptr),
     object.properties (object.object pos [(a, X); (a, Y)])
       = [(a, X); (a, Y)] /\
     exists p m1,
       new_object pos [(a, X); (a, Y)] m = Returned p m1 /\
       properties_at p m1 = Returned [(a, X); (a, Y)] m1).
Proof.
  assert (built : forall l0, exists p m1,
     new_object pos l0 m = Returned p m1 /\
     properties_at p m1 = Returned l0 m1 /\
     heap m1 = heap m ++ [Object (object.object pos l0)]).
  { intros l0. eexists _, _.
    split; [apply (new_returns (an_object pos l0))|].
    split; [|reflexivity].
    apply (properties_at_Some _ (object.object pos l0)). cbn.
    rewrite lookup_app_r by lia. by rewrite Nat.sub_diag. }
  split; [reflexivity|]. split; [apply built|].
  intros a X Y. split; [reflexivity|].
  destruct (built [(a, X); (a, Y)]) as (p & m1 & H1 & H2 & _). eauto.
Qed.

(** C8.  A word returns from [symbol()] the very handle its constructor
    was given, not a handle to a copy; and building the word touches no
    other token, so whatever [id()] returned through that handle before, it
    returns after. *)
Theorem word_returns_its_symbol
  (pos : position) (sym : word.symbol_type) (m : memory) :
  word.symbol (word.word pos sym) = sym /\
  exists p m1,
    new_word pos sym m = Returned p m1 /\
    symbol_at p m1 = Returned sym m1 /\
    heap m1 = heap m ++ [Word (word.word pos sym)] /\
    forall s, id_at sym m = Returned s m -> id_at sym m1 = Returned s m1.
Proof.
  split; [reflexivity|].
  eexists _, _. split; [apply (new_returns (a_word pos sym))|].
  split; [|split; [reflexivity|]].
  - apply (symbol_at_Some _ (word.word pos sym)). cbn.
    rewrite lookup_app_r by lia. by rewrite Nat.sub_diag.
  - intros s H. apply id_at_returned in H as (_ & a & x & -> & Ha & <-).
    apply id_at_Some. cbn. by apply lookup_app_l_Some.
Qed.



(** C10.  The six enumerators have the six character codes of the header,
    which are pairwise distinct, so the code determines the enumerator; and
    the enumerator [type()] returns determines the class of the node, each
    node being of exactly one of the six classes. *)
Theorem discriminants_identify_the_class :
  map token.code
      [token.array; token.object; token.quote;
       token.string; token.symbol; token.word]
    = [91; 123; 40; 34; 115; 58]%Z /\
  NoDup [91; 123; 40; 34; 115; 58]%Z /\
  (forall t1 t2 : token.type,
     bool_decide (token.code t1 = token.code t2) = bool_decide (t1 = t2)) /\
  (forall n : node,
     (type n = token.array <-> exists x, n = Array x) /\
     (type n = token.object <-> exists x, n = Object x) /\
     (type n = token.quote <-> exists x, n = Quote x) /\
     (type n = token.string <-> exists x, n = String x) /\
     (type n = token.symbol <-> exists x, n = Symbol x) /\
     (type n = token.word <-> exists x, n = Word x)).
Proof.
  split; [reflexivity|]. split; [|split].
  - compute_done.
  - intros [] []; reflexivity.
  - intros n. repeat split;
      try (intros [x ->]; reflexivity);
      destruct n; cbn; intros H; try discriminate H; eauto.
Qed.

(** C3.  A token in the heap is only ever read.  Through a handle to it,
    [type()] and [position()] return, and so does each of [elements()],
    [properties()], [children()], [value()], [id()] and [symbol()] on a
    token of the class that declares it; each returns what the token holds
    and hands back the memory exactly as it was.  And whatever operations
    run afterwards (constructions, calls through handles, the caller
    rewriting or destroying its own objects), the token at that address is
    still the same token: same position, same content, same children. *)
Theorem tokens_are_only_read (m : memory) (a : addr) (n : node) :
  heap m !! a = Some n ->
  type_at (ptr a) m = Returned (type n) m /\
  position_at (ptr a) m = Returned (position_of n) m /\
  (forall x, n = Array x ->
     elements_at (ptr a) m = Returned (array.elements x) m) /\
  (forall x, n = Object x ->
     properties_at (ptr a) m = Returned (object.properties x) m) /\
  (forall x, n = Quote x ->
     children_at (ptr a) m = Returned (quote.children x) m) /\
  (forall x, n = String x ->
     value_at (ptr a) m = Returned (string.value x) m) /\
  (forall x, n = Symbol x ->
     id_at (ptr a) m = Returned (symbol.id x) m) /\
  (forall x, n = Word x ->
     symbol_at (ptr a) m = Returned (word.symbol x) m) /\
  (forall os u m', run os m = Returned u m' -> heap m' !! a = Some n).
Proof.
  intros Ha. repeat split.
  - by apply type_at_Some.
  - by apply position_at_Some.
  - intros x ->. by apply elements_at_Some.
  - intros x ->. by apply properties_at_Some.
  - intros x ->. by apply children_at_Some.
  - intros x ->. by apply value_at_Some.
  - intros x ->. by apply id_at_Some.
  - intros x ->. by apply symbol_at_Some.
  - intros os u m' Hrun. eapply run_keeps; eauto.
Qed.

(** C4, as the code has it.  The constructors check nothing.  Given a null
    symbol handle, the word constructor returns a word whose [symbol()] is
    that null handle; given a sequence with null handles in it, the array
    and quote constructors return a node whose [elements()] or [children()]
    is that sequence, nulls included.  No construction is ever stopped by
    an assertion. *)
Theorem null_children_are_stored (pos : position) (m : memory) :
  (exists p m1,
     new_word pos nullptr m = Returned p m1 /\
     symbol_at p m1 = Returned nullptr m1) /\
  (forall l, In nullptr l ->
     exists p m1,
       new_array pos l m = Returned p m1 /\
       elements_at p m1 = Returned l m1) /\
  (forall l, In nullptr l ->
     exists p m1,
       new_quote pos l m = Returned p m1 /\
       children_at p m1 = Returned l m1) /\
  (forall c, fails_fast (new c m) = false).
Proof.
  split; [|split; [|split]].
  - eexists _, _. split; [apply (new_returns (a_word pos nullptr))|].
    apply (symbol_at_Some _ (word.word pos nullptr)). cbn.
    rewrite lookup_app_r by lia. by rewrite Nat.sub_diag.
  - intros l _. eexists _, _.
    split; [apply (new_returns (an_array pos l))|].
    apply (elements_at_Some _ (array.array pos l)). cbn.
    rewrite lookup_app_r by lia. by rewrite Nat.sub_diag.
  - intros l _. eexists _, _.
    split; [apply (new_returns (a_quote pos l))|].
    apply (children_at_Some _ (quote.quote pos l)). cbn.
    rewrite lookup_app_r by lia. by rewrite Nat.sub_diag.
  - intros c. by rewrite new_returns.
Qed.

(** C4, as the claim has it, fails: built in the empty memory from a null
    symbol handle, or from a sequence holding only a null handle, the word,
    the array and the quote are all constructed, and nothing fails fast. *)
Lemma null_children_do_not_fail_fast :
  new_word test_3_5 nullptr empty_memory
    = Returned (ptr 0)
        {| heap := [Word (word.word test_3_5 nullptr)]; locals := ∅ |} /\
  fails_fast (new_word test_3_5 nullptr empty_memory) = false /\
  new_array test_3_5 [nullptr] empty_memory
    = Returned (ptr 0)
        {| heap := [Array (array.array test_3_5 [nullptr])]; locals := ∅ |} /\
  fails_fast (new_array test_3_5 [nullptr] empty_memory) = false /\
  new_quote test_3_5 [nullptr] empty_memory
    = Returned (ptr 0)
        {| heap := [Quote (quote.quote test_3_5 [nullptr])]; locals := ∅ |} /\
  fails_fast (new_quote test_3_5 [nullptr] empty_memory) = false.
Proof. repeat split. Qed.

(** What a constructor called by reference does, once the references are
    known to hold a position and a content. *)
Lemma construct_reads t rp rc pos c m :
  locals m !! rp = Some (a_position pos) ->
  locals m !! rc = Some c ->
  construct t rp rc m =
    match t, c with
    | token.array, a_container l => new (an_array pos l) m
    | token.object, some_properties l => new (an_object pos l) m
    | token.quote, a_container l => new (a_quote pos l) m
    | token.string, a_text s => new (a_string pos s) m
    | token.symbol, a_text s => new (a_symbol pos s) m
    | token.word, a_handle h => new (a_word pos h) m
    | _, _ => Undefined
    end.
Proof.
  intros Hp Hc. unfold construct, load_position, bind, load.
  rewrite Hp. cbn. rewrite Hc. by destruct t, c.
Qed.

(** C9.  A constructor keeps its own copy of the container or text it is
    given by reference.  Once an array, object, quote, string or symbol has
    been built from the caller's object, the caller may overwrite that
    object or destroy it, among any other operations: [elements()],
    [properties()], [children()], [value()] and [id()] go on returning what
    the caller's object held when the constructor ran. *)
Theorem constructors_keep_their_own_copy
  (m : memory) (rp rc : ref) (pos : position) :
  locals m !! rp = Some (a_position pos) ->
  (forall l, locals m !! rc = Some (a_container l) ->
     exists p m1,
       construct token.array rp rc m = Returned p m1 /\
       forall os u m2,
         run os m1 = Returned u m2 -> elements_at p m2 = Returned l m2) /\
  (forall l, locals m !! rc = Some (some_properties l) ->
     exists p m1,
       construct token.object rp rc m = Returned p m1 /\
       forall os u m2,
         run os m1 = Returned u m2 -> properties_at p m2 = Returned l m2) /\
  (forall l, locals m !! rc = Some (a_container l) ->
     exists p m1,
       construct token.quote rp rc m = Returned p m1 /\
       forall os u m2,
         run os m1 = Returned u m2 -> children_at p m2 = Returned l m2) /\
  (forall s, locals m !! rc = Some (a_text s) ->
     exists p m1,
       construct token.string rp rc m = Returned p m1 /\
       forall os u m2,
         run os m1 = Returned u m2 -> value_at p m2 = Returned s m2) /\
  (forall s, locals m !! rc = Some (a_text s) ->
     exists p m1,
       construct token.symbol rp rc m = Returned p m1 /\
       forall os u m2,
         run os m1 = Returned u m2 -> id_at p m2 = Returned s m2).
Proof.
  intros Hp.
  repeat split; intros x Hc; eexists _, _;
    (split;
     [ rewrite (construct_reads _ _ _ _ _ _ Hp Hc); apply new_returns
     | intros os u m2 Hrun ]).
  - destruct (new_lives (an_array pos x) m _ _ os u m2
                (new_returns _ m) Hrun) as [_ Hn].
    apply (elements_at_Some _ _ _ Hn).
  - destruct (new_lives (an_object pos x) m _ _ os u m2
                (new_returns _ m) Hrun) as [_ Hn].
    apply (properties_at_Some _ _ _ Hn).
  - destruct (new_lives (a_quote pos x) m _ _ os u m2
                (new_returns _ m) Hrun) as [_ Hn].
    apply (children_at_Some _ _ _ Hn).
  - destruct (new_lives (a_string pos x) m _ _ os u m2
                (new_returns _ m) Hrun) as [_ Hn].
    apply (value_at_Some _ _ _ Hn).
  - destruct (new_lives (a_symbol pos x) m _ _ os u m2
                (new_returns _ m) Hrun) as [_ Hn].
    apply (id_at_Some _ _ _ Hn).
Qed.

(** ** The claims on concrete inputs *)

(** The symbol [dup] at line 3, column 5 of [test], built in the empty
    memory and followed by the construction of a word over it: its type is
    still [symbol]. *)
Lemma type_is_the_variant_constructed_witness :
  exists m2,
    run [op_new (a_word at_1_1 (ptr 0)); op_id (ptr 0)]
        {| heap := [Symbol (symbol.symbol test_3_5 text_dup)]; locals := ∅ |}
      = Returned tt m2 /\
    type_at (ptr 0) m2 = Returned token.symbol m2.
Proof.
  destruct (type_is_the_variant_constructed
              (a_symbol test_3_5 text_dup) empty_memory)
    as (_ & _ & p & m1 & Hnew & _ & Hlater).
  injection Hnew as <- <-.
  eexists. split; [reflexivity|].
  apply (Hlater [op_new (a_word at_1_1 (ptr 0)); op_id (ptr 0)] tt).
  reflexivity.
Defined.

Lemma position_is_the_one_given_witness :
  exists m2,
    run [op_new (a_word at_1_1 (ptr 0)); op_position (ptr 1)]
        {| heap := [Symbol (symbol.symbol test_3_5 text_dup)]; locals := ∅ |}
      = Returned tt m2 /\
    position_at (ptr 0) m2 = Returned test_3_5 m2.
Proof.
  destruct (position_is_the_one_given
              (a_symbol test_3_5 text_dup) empty_memory)
    as (_ & _ & p & m1 & Hnew & _ & Hlater).
  injection Hnew as <- <-.
  eexists. split; [reflexivity|].
  apply (Hlater [op_new (a_word at_1_1 (ptr 0)); op_position (ptr 1)] tt).
  reflexivity.
Defined.

(** A word built over the symbol [dup]: [symbol()] is the handle to that
    symbol, whose [id()] is still [dup]. *)
Lemma word_returns_its_symbol_witness :
  exists p m1,
    new_word at_2_1 (ptr 0)
      {| heap := [Symbol (symbol.symbol test_3_5 text_dup)]; locals := ∅ |}
      = Returned p m1 /\
    symbol_at p m1 = Returned (ptr 0) m1 /\
    id_at (ptr 0) m1 = Returned text_dup m1.
Proof.
  destruct (word_returns_its_symbol at_2_1 (ptr 0)
              {| heap := [Symbol (symbol.symbol test_3_5 text_dup)];
                 locals := ∅ |})
    as (_ & p & m1 & Hnew & Hsym & _ & Hid).
  exists p, m1. split; [exact Hnew|]. split; [exact Hsym|].
  apply Hid. reflexivity.
Defined.

(** The string at address 0 of the caller's memory, read, and then left
    alone by a construction and by everything the caller does to its own
    objects. *)
Lemma tokens_are_only_read_witness :
  heap caller_memory !! 0 = Some (String (string.string at_1_1 text_a)) /\
  value_at (ptr 0) caller_memory = Returned text_a caller_memory /\
  exists m',
    run (op_new (an_array at_1_1 [ptr 0]) :: caller_meddles) caller_memory
      = Returned tt m' /\
    heap m' !! 0 = Some (String (string.string at_1_1 text_a)).
Proof.
  split; [reflexivity|].
  destruct (tokens_are_only_read caller_memory 0
              (String (string.string at_1_1 text_a)) eq_refl)
    as (_ & _ & _ & _ & _ & Hvalue & _ & _ & Hkept).
  split; [apply (Hvalue _ eq_refl)|].
  eexists. split; [reflexivity|].
  apply (Hkept (op_new (an_array at_1_1 [ptr 0]) :: caller_meddles) tt).
  reflexivity.
Defined.

(** An array and a quote over a null handle between two handles to the
    same token. *)
Lemma null_children_are_stored_witness :
  In nullptr [ptr 0; nullptr; ptr 0] /\
  (exists p m1,
     new_array at_1_1 [ptr 0; nullptr; ptr 0] caller_memory
       = Returned p m1 /\
     elements_at p m1 = Returned [ptr 0; nullptr; ptr 0] m1) /\
  (exists p m1,
     new_quote at_1_1 [ptr 0; nullptr; ptr 0] caller_memory
       = Returned p m1 /\
     children_at p m1 = Returned [ptr 0; nullptr; ptr 0] m1).
Proof.
  assert (Hnull : In nullptr [ptr 0; nullptr; ptr 0])
    by (right; left; reflexivity).
  destruct (null_children_are_stored at_1_1 caller_memory)
    as (_ & Harray & Hquote & _).
  split; [exact Hnull|].
  split; [exact (Harray _ Hnull) | exact (Hquote _ Hnull)].
Defined.

(** The caller builds an array, an object and a symbol from its objects 1,
    2 and 3, then empties, rewrites and destroys them all: the three tokens
    still hold what the objects held. *)
Lemma constructors_keep_their_own_copy_witness :
  locals caller_memory !! 0 = Some (a_position test_3_5) /\
  (exists p m1 m2,
     construct token.array 0 1 caller_memory = Returned p m1 /\
     run caller_meddles m1 = Returned tt m2 /\
     locals m2 = ∅ /\
     elements_at p m2 = Returned [ptr 0; nullptr; ptr 0] m2) /\
  (exists p m1 m2,
     construct token.object 0 2 caller_memory = Returned p m1 /\
     run caller_meddles m1 = Returned tt m2 /\
     properties_at p m2
       = Returned [(text_a, ptr 0); (text_a, nullptr)] m2) /\
  (exists p m1 m2,
     construct token.symbol 0 3 caller_memory = Returned p m1 /\
     run caller_meddles m1 = Returned tt m2 /\
     id_at p m2 = Returned text_dup m2).
Proof.
  split; [reflexivity|].
  destruct (constructors_keep_their_own_copy caller_memory 0 1 test_3_5
              eq_refl) as (Harray & _).
  destruct (constructors_keep_their_own_copy caller_memory 0 2 test_3_5
              eq_refl) as (_ & Hobject & _).
  destruct (constructors_keep_their_own_copy caller_memory 0 3 test_3_5
              eq_refl) as (_ & _ & _ & _ & Hsymbol).
  destruct (Harray _ eq_refl) as (p1 & m1 & Hc1 & Hl1).
  destruct (Hobject _ eq_refl) as (p2 & m2 & Hc2 & Hl2).
  destruct (Hsymbol _ eq_refl) as (p3 & m3 & Hc3 & Hl3).
  vm_compute in Hc1, Hc2, Hc3.
  injection Hc1 as <- <-. injection Hc2 as <- <-. injection Hc3 as <- <-.
  repeat split.
  - eexists _, _, _. split; [reflexivity|]. split; [reflexivity|].
    split; [reflexivity|]. apply (Hl1 caller_meddles tt). reflexivity.
  - eexists _, _, _. split; [reflexivity|]. split; [reflexivity|].
    apply (Hl2 caller_meddles tt). reflexivity.
  - eexists _, _, _. split; [reflexivity|]. split; [reflexivity|].
    apply (Hl3 caller_meddles tt). reflexivity.
Defined.

(** ** The scenarios of the specification *)

Example symbol_scenario :
  scenario_symbol empty_memory
    = Returned (token.symbol, text_dup, test_3_5)
        {| heap := [Symbol (symbol.symbol test_3_5 text_dup)]; locals := ∅ |}.
Proof. reflexivity. Qed.

Example array_scenario :
  scenario_array empty_memory
    = Returned (token.array, 2, (token.string, text_a),
                (token.symbol, text_b))
        {| heap := [String (string.string at_1_1 text_a);
                    Symbol (symbol.symbol at_1_1 text_b);
                    Array (array.array at_1_1 [ptr 0; ptr 1])];
           locals := ∅ |}.
Proof. reflexivity. Qed.

Example quote_scenario :
  scenario_quote empty_memory
    = Returned (token.quote, [], [ptr 0])
        {| heap := [String (string.string at_1_1 text_a);
                    Quote (quote.quote at_2_1 []);
                    Quote (quote.quote at_2_1 [ptr 0])];
           locals := ∅ |}.
Proof. reflexivity. Qed.

(** Both parents return the handle to the one string; the heap holds that
    string once. *)
Example shared_scenario :
  scenario_shared empty_memory
    = Returned (ptr 0, [ptr 0; ptr 0], [ptr 0])
        {| heap := [String (string.string at_1_1 text_a);
                    Array (array.array at_1_1 [ptr 0; ptr 0]);
                    Array (array.array at_2_1 [ptr 0])];
           locals := ∅ |}.
Proof. reflexivity. Qed.

(** Two symbols at different positions with the text [dup] have the same
    id; [Dup] and [dup] are different ids. *)
Example ids_are_exact :
  symbol.id (symbol.symbol test_3_5 text_dup)
    = symbol.id (symbol.symbol at_1_1 text_dup) /\
  symbol.id (symbol.symbol test_3_5 text_Dup)
    <> symbol.id (symbol.symbol test_3_5 text_dup).
Proof. split; [reflexivity | discriminate]. Qed.

(** Through a null handle, or a handle to a token of another class, a call
    has no defined behaviour; it is not an assertion failure either. *)
Example calls_through_bad_handles :
  type_at nullptr caller_memory = Undefined /\
  elements_at (ptr 0) caller_memory = Undefined /\
  id_at (ptr 7) caller_memory = Undefined.
Proof. repeat split. Qed.

(** A constructor called with a reference to an object the caller has
    already destroyed has no defined behaviour. *)
Example construct_from_dangling_reference :
  (_ <- destroy 1 ;; construct token.array 0 1) caller_memory = Undefined.
Proof. reflexivity. Qed.

(** ** The shape of the heap: facts *)

Section Shape.

Implicit Types (m : memory) (n : node) (a b : addr) (p : shared_ptr)
  (c : cell) (cs : construction) (o : operation).

Lemma reading_Some t pos c cs :
  reading t pos c = Some cs ->
  variant cs = t /\ position_given cs = pos /\
  handles (constructed cs) = handles_of_cell c.
Proof.
  destruct t, c; cbn; intros H; try discriminate H;
    injection H as <-; by repeat split.
Qed.

(** A constructor called by reference returns only when the references
    hold a position and a content of the type that constructor takes, and
    then it is that constructor called on what they hold. *)
Lemma construct_inv t rp rc p m m1 :
  construct t rp rc m = Returned p m1 ->
  exists pos c cs,
    locals m !! rp = Some (a_position pos) /\
    locals m !! rc = Some c /\
    reading t pos c = Some cs /\
    new cs m = Returned p m1.
Proof.
  unfold construct, load_position, bind, load.
  destruct (locals m !! rp) as [[pos| | | |]|] eqn:Hp; cbn;
    try discriminate.
  destruct (locals m !! rc) as [c|] eqn:Hc; cbn; try discriminate.
  intros H. exists pos, c.
  destruct t, c; cbn in H; try discriminate H;
    eexists; (split; [reflexivity|]); (split; [reflexivity|]);
    (split; [reflexivity|]); exact H.
Qed.

(** What an operation that returns has done to the memory. *)
Lemma perform_returned o u m m' :
  perform o m = Returned u m' ->
  locals m' =
    match o with
    | op_assign r c => <[r := c]> (locals m)
    | op_destroy r => delete r (locals m)
    | _ => locals m
    end /\
  ((builds o = false /\ heap m' = heap m) \/
   (builds o = true /\
    exists cs, heap m' = heap m ++ [constructed cs] /\
               (allowed m o = true -> accepts m cs = true))).
Proof.
  destruct o; cbn [perform builds]; unfold discard, assign, destroy;
    intros H; returned.
  - rewrite new_returns in H. injection H as _ <-. cbn.
    split; [reflexivity|]. right. split; [reflexivity|]. eauto.
  - apply construct_inv in H as (pos & c & cs & Hp & Hc & Hr & H).
    rewrite new_returns in H. injection H as _ <-. cbn.
    split; [reflexivity|]. right. split; [reflexivity|].
    exists cs. split; [reflexivity|]. by rewrite Hp, Hc, Hr.
  - apply type_at_pure in H as ->. auto.
  - apply position_at_pure in H as ->. auto.
  - apply elements_at_pure in H as ->. auto.
  - apply properties_at_pure in H as ->. auto.
  - apply children_at_pure in H as ->. auto.
  - apply value_at_pure in H as ->. auto.
  - apply id_at_pure in H as ->. auto.
  - apply symbol_at_pure in H as ->. auto.
  - injection H as _ <-. cbn. auto.
  - injection H as _ <-. cbn. auto.
Qed.

Lemma points_to_symbol_grows m m' l p :
  heap m' = heap m ++ l ->
  points_to_symbol m p = true -> points_to_symbol m' p = true.
Proof.
  intros E. destruct p as [|b]; [done|]. cbn. rewrite E.
  destruct (heap m !! b) as [n|] eqn:Hb; [|discriminate].
  by rewrite (lookup_app_l_Some _ _ _ _ Hb).
Qed.

Lemma well_formed_empty : well_formed empty_memory.
Proof. intros a n H. discriminate H. Qed.

Lemma well_formed_same_heap m m' :
  heap m' = heap m -> well_formed m -> well_formed m'.
Proof.
  intros E Hwf a n Ha. rewrite E in Ha. destruct (Hwf a n Ha) as [Ho Hw].
  split; [exact Ho|]. intros w Hn.
  apply (points_to_symbol_grows m m' []); [by rewrite E, app_nil_r|].
  by apply Hw.
Qed.

Lemma well_formed_grows m m' cs :
  well_formed m -> accepts m cs = true ->
  heap m' = heap m ++ [constructed cs] -> well_formed m'.
Proof.
  intros Hwf Hacc E a n Ha. rewrite E in Ha.
  apply andb_true_iff in Hacc as [Hlive Htyped].
  apply lookup_app_Some in Ha as [Ha | [Hlen Ha]].
  - destruct (Hwf a n Ha) as [Ho Hw]. split; [exact Ho|].
    intros w Hn. eapply points_to_symbol_grows; [exact E | by apply Hw].
  - apply list_lookup_singleton_Some in Ha as [_ <-]. split.
    + intros b Hb. rewrite forallb_forall in Hlive.
      specialize (Hlive _ Hb). cbn in Hlive.
      apply bool_decide_eq_true in Hlive. lia.
    + intros w Hn. destruct cs; try discriminate Hn.
      injection Hn as <-. cbn.
      eapply points_to_symbol_grows; [exact E | exact Htyped].
Qed.

Lemma perform_well_formed o u m m' :
  well_formed m -> allowed m o = true ->
  perform o m = Returned u m' -> well_formed m'.
Proof.
  intros Hwf Hal H.
  apply perform_returned in H as [_ [[_ E] | [_ (cs & E & Hacc)]]].
  - by apply (well_formed_same_heap m).
  - apply (well_formed_grows m m' cs); auto.
Qed.

Lemma run_well_formed os u m m' :
  well_formed m -> admissible os m = true ->
  run os m = Returned u m' -> well_formed m'.
Proof.
  revert m. induction os as [|o os IH]; intros m Hwf Had H; cbn in H, Had.
  - injection H as _ <-. exact Hwf.
  - apply andb_true_iff in Had as [Hal Had].
    apply bind_returned in H as (x & m1 & Hp & Hr).
    rewrite Hp in Had.
    apply (IH m1); [|exact Had|exact Hr].
    by apply (perform_well_formed o x m).
Qed.

Lemma descendants_are_older m a b :
  well_formed m -> tc (child m) a b -> b < a.
Proof.
  intros Hwf H.
  induction H as [a b (n & Hn & Hin) | a c b (n & Hn & Hin) _ IH].
  - by apply (Hwf a n Hn).
  - pose proof (proj1 (Hwf a n Hn) c Hin). lia.
Qed.

End Shape.

(** ** Further properties of the header *)

(** X1.  Children are older than their parents.  The header has no member
    function that adds, replaces or removes a child, and a constructor can
    only be given handles the program already holds.  So when a program
    that passes such handles runs from a well-formed memory (the empty one,
    say), the memory it leaves is well formed, every token reached from a
    token by following stored handles was built before it, and no token
    reaches itself: the tokens form a directed acyclic graph. *)
Theorem children_are_older
  (os : list operation) (m m' : memory) (u : unit) :
  well_formed m ->
  admissible os m = true ->
  run os m = Returned u m' ->
  well_formed m' /\
  (forall a b, tc (child m') a b -> b < a) /\
  (forall a, tc (child m') a a -> False).
Proof.
  intros Hwf Had Hrun.
  assert (Hwf' : well_formed m') by (eapply run_well_formed; eauto).
  split; [exact Hwf'|]. split.
  - intros a b H. by apply (descendants_are_older m').
  - intros a H. apply (descendants_are_older m' a a Hwf') in H. lia.
Qed.

Lemma children_are_older_witness :
  run sample_program empty_memory = Returned tt sample_memory /\
  well_formed sample_memory /\
  (forall a b, tc (child sample_memory) a b -> b < a) /\
  (forall a, tc (child sample_memory) a a -> False).
Proof.
  split; [reflexivity|].
  apply (children_are_older sample_program empty_memory sample_memory tt).
  - exact well_formed_empty.
  - reflexivity.
  - reflexivity.
Defined.

(** X2.  No token holds a dangling handle.  In the memory such a program
    leaves, every non-null handle found in a token (an element of an array,
    the value of a property, a child of a quote, the symbol of a word)
    points to a token: [type()] and [position()] through it return.  And
    the symbol of a word, when not null, points to a symbol: [id()] through
    it returns. *)
Theorem stored_handles_can_be_read
  (os : list operation) (m0 m : memory) (u : unit) (a : addr) (n : node) :
  well_formed m0 ->
  admissible os m0 = true ->
  run os m0 = Returned u m ->
  heap m !! a = Some n ->
  (forall b, In (ptr b) (handles n) ->
     exists x,
       heap m !! b = Some x /\
       type_at (ptr b) m = Returned (type x) m /\
       position_at (ptr b) m = Returned (position_of x) m) /\
  (forall w b, n = Word w -> word.symbol w = ptr b ->
     exists s,
       heap m !! b = Some (Symbol s) /\
       type_at (ptr b) m = Returned token.symbol m /\
       id_at (ptr b) m = Returned (symbol.id s) m).
Proof.
  intros Hwf0 Had Hrun Ha.
  assert (Hwf : well_formed m) by (eapply run_well_formed; eauto).
  destruct (Hwf a n Ha) as [Hold Hword]. split.
  - intros b Hb. pose proof (Hold b Hb) as Hlt.
    apply lookup_lt_Some in Ha.
    destruct (lookup_lt_is_Some_2 (heap m) b ltac:(lia)) as [x Hx].
    exists x. split; [exact Hx|].
    split; [by apply type_at_Some | by apply position_at_Some].
  - intros w b -> Hsym. specialize (Hword w eq_refl).
    rewrite Hsym in Hword. cbn in Hword.
    destruct (heap m !! b) as [[| | | |s|]|] eqn:Hb; try discriminate.
    exists s. split; [reflexivity|].
    split; [apply (type_at_Some _ _ _ Hb) | by apply id_at_Some].
Qed.

Lemma stored_handles_can_be_read_witness :
  heap sample_memory !! 2 = Some (Word (word.word at_2_1 (ptr 0))) /\
  exists s,
    heap sample_memory !! 0 = Some (Symbol s) /\
    type_at (ptr 0) sample_memory = Returned token.symbol sample_memory /\
    id_at (ptr 0) sample_memory = Returned (symbol.id s) sample_memory.
Proof.
  split; [reflexivity|].
  apply (stored_handles_can_be_read sample_program empty_memory
           sample_memory tt 2 (Word (word.word at_2_1 (ptr 0)))
           well_formed_empty eq_refl eq_refl eq_refl)
    with (w := word.word at_2_1 (ptr 0)); reflexivity.
Defined.

(** X3.  [type()] tells which member functions may be called.  A handle
    either points to a token, and then [type()] and [position()] return
    and, of [elements()], [properties()], [children()], [value()], [id()]
    and [symbol()], exactly the one declared by the class that [type()]
    names returns; or it is null or dangling, and then no call through it
    has defined behaviour. *)
Theorem type_selects_the_accessor (m : memory) (p : shared_ptr) :
  (exists t pos,
     type_at p m = Returned t m /\
     position_at p m = Returned pos m /\
     (t = token.array <-> exists x, elements_at p m = Returned x m) /\
     (t = token.object <-> exists x, properties_at p m = Returned x m) /\
     (t = token.quote <-> exists x, children_at p m = Returned x m) /\
     (t = token.string <-> exists x, value_at p m = Returned x m) /\
     (t = token.symbol <-> exists x, id_at p m = Returned x m) /\
     (t = token.word <-> exists x, symbol_at p m = Returned x m)) \/
  (live m p && bool_decide (p <> nullptr) = false /\
   type_at p m = Undefined /\
   position_at p m = Undefined /\
   elements_at p m = Undefined /\
   properties_at p m = Undefined /\
   children_at p m = Undefined /\
   value_at p m = Undefined /\
   id_at p m = Undefined /\
   symbol_at p m = Undefined).
Proof.
  destruct p as [|a]; [right; by repeat split|].
  destruct (heap m !! a) as [n|] eqn:Ha.
  - left. exists (type n), (position_of n).
    split; [by apply type_at_Some|]. split; [by apply position_at_Some|].
    unfold elements_at, properties_at, children_at, value_at, id_at,
      symbol_at, bind.
    rewrite (deref_Some _ _ _ Ha).
    destruct n; cbn;
      repeat split; try discriminate; eauto;
      intros [x H]; discriminate H.
  - right.
    unfold type_at, position_at, elements_at, properties_at, children_at,
      value_at, id_at, symbol_at, bind, deref. rewrite Ha.
    repeat split. cbn. apply andb_false_iff. left.
    apply bool_decide_eq_false. apply lookup_ge_None in Ha. lia.
Qed.

(** X4.  A string returns from [value()], and a symbol from [id()], the
    text its constructor was given, whatever the text (the empty one
    included): same length, same code units, nothing decoded or trimmed.
    It does so right after construction and after any further operations,
    and building the token adds that one token to the heap. *)
Theorem texts_are_returned_as_given
  (pos : position) (s : u32string) (m : memory) :
  (exists p m1,
     new_string pos s m = Returned p m1 /\
     heap m1 = heap m ++ [String (string.string pos s)] /\
     forall os u m2,
       run os m1 = Returned u m2 -> value_at p m2 = Returned s m2) /\
  (exists p m1,
     new_symbol pos s m = Returned p m1 /\
     heap m1 = heap m ++ [Symbol (symbol.symbol pos s)] /\
     forall os u m2,
       run os m1 = Returned u m2 -> id_at p m2 = Returned s m2).
Proof.
  split; eexists _, _.
  - split; [apply (new_returns (a_string pos s))|].
    split; [reflexivity|]. intros os u m2 Hrun.
    destruct (new_lives (a_string pos s) m _ _ os u m2
                (new_returns _ m) Hrun) as [_ Hn].
    apply (value_at_Some _ _ _ Hn).
  - split; [apply (new_returns (a_symbol pos s))|].
    split; [reflexivity|]. intros os u m2 Hrun.
    destruct (new_lives (a_symbol pos s) m _ _ os u m2
                (new_returns _ m) Hrun) as [_ Hn].
    apply (id_at_Some _ _ _ Hn).
Qed.

Lemma texts_are_returned_as_given_witness :
  exists m2,
    run (op_new (a_symbol at_1_1 text_Dup) :: caller_meddles)
        {| heap := heap caller_memory ++ [String (string.string at_2_1 [])];
           locals := locals caller_memory |}
      = Returned tt m2 /\
    value_at (ptr 1) m2 = Returned [] m2.
Proof.
  destruct (texts_are_returned_as_given at_2_1 [] caller_memory)
    as ((p & m1 & Hnew & _ & Hlater) & _).
  injection Hnew as <- <-.
  eexists. split; [reflexivity|].
  apply (Hlater (op_new (a_symbol at_1_1 text_Dup) :: caller_meddles) tt).
  reflexivity.
Defined.

(** X5.  Every constructor copies its position, and the word constructor
    its symbol handle, out of the object the reference names.  Whatever
    class is built by reference, once the constructor has returned the
    caller may overwrite or destroy its position object and its handle:
    [position()] still returns the position the object held, [type()] the
    enumerator of the class built, and [symbol()] of a word the handle the
    caller's object held. *)
Theorem constructors_copy_position_and_handle
  (t : token.type) (rp rc : ref) (pos : position) (c : cell)
  (m m1 : memory) (p : shared_ptr) :
  locals m !! rp = Some (a_position pos) ->
  locals m !! rc = Some c ->
  construct t rp rc m = Returned p m1 ->
  locals m1 = locals m /\
  forall os u m2,
    run os m1 = Returned u m2 ->
    position_at p m2 = Returned pos m2 /\
    type_at p m2 = Returned t m2 /\
    (forall h, c = a_handle h -> symbol_at p m2 = Returned h m2).
Proof.
  intros Hp Hc H.
  apply construct_inv in H as (pos' & c' & cs & Hp' & Hc' & Hr & Hnew).
  rewrite Hp in Hp'. injection Hp' as <-.
  rewrite Hc in Hc'. injection Hc' as <-.
  apply reading_Some in Hr as Hcs. destruct Hcs as (Hv & Hpos & _).
  split.
  { rewrite new_returns in Hnew. by injection Hnew as _ <-. }
  intros os u m2 Hrun.
  destruct (new_lives cs m p m1 os u m2 Hnew Hrun) as [-> Hn].
  split; [|split].
  - rewrite (position_at_Some _ _ _ Hn). by rewrite position_constructed, Hpos.
  - rewrite (type_at_Some _ _ _ Hn). by rewrite type_constructed, Hv.
  - intros h ->. destruct t; cbn in Hr; try discriminate Hr.
    injection Hr as <-. apply (symbol_at_Some _ _ _ Hn).
Qed.

Lemma constructors_copy_position_and_handle_witness :
  exists p m1 m2,
    construct token.word 0 4 word_caller_memory = Returned p m1 /\
    run word_caller_meddles m1 = Returned tt m2 /\
    locals m2 = ∅ /\
    position_at p m2 = Returned test_3_5 m2 /\
    type_at p m2 = Returned token.word m2 /\
    symbol_at p m2 = Returned (ptr 0) m2.
Proof.
  eexists _, _, _. split; [reflexivity|]. split; [reflexivity|].
  split; [reflexivity|].
  destruct (constructors_copy_position_and_handle
              token.word 0 4 test_3_5 (a_handle (ptr 0))
              word_caller_memory _ _ eq_refl eq_refl eq_refl)
    as [_ Hlater].
  destruct (Hlater word_caller_meddles tt _ eq_refl) as (Hpos & Hty & Hsym).
  split; [exact Hpos|]. split; [exact Hty|]. exact (Hsym _ eq_refl).
Defined.

(** X6.  The header never writes to the caller's objects.  Its
    constructors take their arguments by [const] reference and its member
    functions are [const]: a program made of constructions (by value or by
    reference) and calls through handles, however long, leaves every object
    of the caller as it found it. *)
Theorem caller_objects_are_left_alone
  (os : list operation) (m m' : memory) (u : unit) :
  forallb (fun o => negb (writes_locals o)) os = true ->
  run os m = Returned u m' ->
  locals m' = locals m.
Proof.
  revert m. induction os as [|o os IH]; intros m Hos H; cbn in H, Hos.
  - by injection H as _ <-.
  - apply andb_true_iff in Hos as [Ho Hos].
    apply bind_returned in H as (x & m1 & Hp & Hr).
    rewrite (IH m1 Hos Hr).
    apply perform_returned in Hp as [-> _].
    by destruct o.
Qed.

Lemma caller_objects_are_left_alone_witness :
  exists m',
    run [op_construct token.array 0 1; op_construct token.symbol 0 3;
         op_new (a_word at_2_1 (ptr 2)); op_elements (ptr 1);
         op_id (ptr 2)] caller_memory = Returned tt m' /\
    length (heap m') = 4 /\
    locals m' = locals caller_memory.
Proof.
  eexists. split; [reflexivity|]. split; [reflexivity|].
  apply (caller_objects_are_left_alone
           [op_construct token.array 0 1; op_construct token.symbol 0 3;
            op_new (a_word at_2_1 (ptr 2)); op_elements (ptr 1);
            op_id (ptr 2)] caller_memory _ tt);
    reflexivity.
Defined.

(** X7.  One token per construction, none per call.  When a program has
    run, the heap is the heap it started from followed by as many tokens
    as the program has constructions: building a parent over children
    copies handles, never tokens, and calling a member function builds
    nothing. *)
Theorem one_token_per_construction
  (os : list operation) (m m' : memory) (u : unit) :
  run os m = Returned u m' ->
  exists l,
    heap m' = heap m ++ l /\
    length l = length (List.filter builds os).
Proof.
  revert m. induction os as [|o os IH]; intros m H; cbn in H.
  - injection H as _ <-. exists []. split; [|reflexivity].
    symmetry. apply app_nil_r.
  - apply bind_returned in H as (x & m1 & Hp & Hr).
    destruct (IH m1 Hr) as (l & E & Hl).
    apply perform_returned in Hp as [_ [[Hb E1] | [Hb (cs & E1 & _)]]];
      cbn [List.filter]; rewrite Hb, E, E1.
    + by exists l.
    + exists (constructed cs :: l). split; [by rewrite <- app_assoc|].
      cbn. by rewrite Hl.
Qed.

Lemma one_token_per_construction_witness :
  run sample_program empty_memory = Returned tt sample_memory /\
  length (List.filter builds sample_program) = 5 /\
  exists l,
    heap sample_memory = heap empty_memory ++ l /\
    length l = length (List.filter builds sample_program).
Proof.
  split; [reflexivity|]. split; [reflexivity|].
  apply (one_token_per_construction sample_program empty_memory
           sample_memory tt).
  reflexivity.
Defined.
